(** * useDomCanvasEvents: pinch and wheel gesture synthesis

    A shallow embedding of
    [packages/editor/src/lib/hooks/useDomCanvasEvents.ts].

    The closure state of the effect (the [activePointers] map, [pinchState]
    and the numeric / vector bookkeeping) becomes an explicit record [St];
    every DOM listener becomes a function [St -> St * list Effect], where an
    [Effect] is an [editor.dispatch] call or a DOM side effect
    ([preventDefault], [stopEventPropagation]).  Callbacks given to
    [editor.timers.requestAnimationFrame] are kept in a queue of the state and
    run by an explicit [AnimationFrame] event.

    JavaScript numbers are modelled as real numbers: the model covers finite
    results only.  The collaborators whose code is not part of this file
    ([Vec.Dist], [normalizeWheel], [isAccelKey], the shape util's
    [canScroll], [Box.containsPoint]) are section variables, so every theorem
    holds for any implementation of them. *)

From Stdlib Require Import Reals Lra Lia List ZArith Bool.
Import ListNotations.
Open Scope R_scope.

(** ** Data *)

Record Vec := mkVec { vx : R; vy : R }.

(** The modifier flags of a raw DOM event. *)
Record Mods := mkMods { m_shift : bool; m_alt : bool; m_ctrl : bool; m_meta : bool }.

(** The fields of a [PointerEvent] read by the hook. *)
Record PointerEvent := mkPointerEvent {
  pointerId : Z;
  clientX : R;
  clientY : R;
  pmods : Mods }.

(** The fields of a [WheelEvent] read by the hook; the raw deltas are only
    read through [normalizeWheel]. *)
Record WheelEvent := mkWheelEvent {
  wclientX : R;
  wclientY : R;
  wdeltaX : R;
  wdeltaY : R;
  wdeltaZ : R;
  wdeltaMode : Z;
  wmods : Mods }.

(** [pinchState: 'not sure' | 'zooming' | 'panning'] *)
Inductive PinchState := NotSure | Zooming | Panning.

(** [name] of a [TLPinchEventInfo]. *)
Inductive PinchName := pinch_start | pinch | pinch_end.

(** The modifier part shared by [TLPinchEventInfo] and [TLWheelEventInfo]. *)
Record KeyInfo := mkKeyInfo {
  shiftKey : bool;
  altKey : bool;
  ctrlKey : bool;
  metaKey : bool;
  accelKey : bool }.

(** [TLPinchEventInfo] (point [x y z], delta [dx dy]) and
    [TLWheelEventInfo] (delta, point). *)
Inductive TLEventInfo :=
  | PinchInfo (name : PinchName) (point : Vec) (z : R) (delta : Vec) (k : KeyInfo)
  | WheelInfo (delta : Vec) (point : Vec) (k : KeyInfo).

(** Observable effects of a listener, in the order the code performs them. *)
Inductive Effect :=
  | Dispatch (info : TLEventInfo)
  | PreventDefault
  | StopPropagation.

(** The closure passed to [editor.timers.requestAnimationFrame] in
    [onPointerUp]: it captures [finalZoom] and the event [e] (its modifier
    flags), and reads [prevPointBetweenFingers] when it runs. *)
Inductive RafTask := PinchEndTask (finalZoom : R) (m : Mods).

(** The JavaScript [Map<number, PointerEvent>]: an association list in
    insertion order.  [set] on a present key replaces the value in place,
    on a new key appends; [delete] removes the key. *)
Definition PointerMap := list (Z * PointerEvent).

Fixpoint mapHas (k : Z) (m : PointerMap) : bool :=
  match m with
  | [] => false
  | (k', _) :: m' => Z.eqb k k' || mapHas k m'
  end.

Fixpoint mapSetAux (k : Z) (v : PointerEvent) (m : PointerMap) : PointerMap :=
  match m with
  | [] => []
  | (k', v') :: m' => if Z.eqb k k' then (k', v) :: m' else (k', v') :: mapSetAux k v m'
  end.

Definition mapSet (k : Z) (v : PointerEvent) (m : PointerMap) : PointerMap :=
  if mapHas k m then mapSetAux k v m else m ++ [(k, v)].

Definition mapDelete (k : Z) (m : PointerMap) : PointerMap :=
  filter (fun kv => negb (Z.eqb k (fst kv))) m.

Definition mapSize (m : PointerMap) : nat := length m.

(** The closure state of the hook. *)
Record St := mkSt {
  activePointers : PointerMap;
  pinchState : PinchState;
  initDistanceBetweenFingers : R;
  initZoom : R;
  currDistanceBetweenFingers : R;
  initPointBetweenFingers : Vec;
  prevPointBetweenFingers : Vec;
  rafQueue : list RafTask }.

(** The values the effect starts with. *)
Definition initSt : St :=
  {| activePointers := [];
     pinchState := NotSure;
     initDistanceBetweenFingers := 1;
     initZoom := 1;
     currDistanceBetweenFingers := 0;
     initPointBetweenFingers := mkVec 0 0;
     prevPointBetweenFingers := mkVec 0 0;
     rafQueue := [] |}.

(** Field updates. *)
Definition setActivePointers (m : PointerMap) (s : St) : St :=
  {| activePointers := m; pinchState := pinchState s;
     initDistanceBetweenFingers := initDistanceBetweenFingers s; initZoom := initZoom s;
     currDistanceBetweenFingers := currDistanceBetweenFingers s;
     initPointBetweenFingers := initPointBetweenFingers s;
     prevPointBetweenFingers := prevPointBetweenFingers s; rafQueue := rafQueue s |}.

Definition setPinchState (p : PinchState) (s : St) : St :=
  {| activePointers := activePointers s; pinchState := p;
     initDistanceBetweenFingers := initDistanceBetweenFingers s; initZoom := initZoom s;
     currDistanceBetweenFingers := currDistanceBetweenFingers s;
     initPointBetweenFingers := initPointBetweenFingers s;
     prevPointBetweenFingers := prevPointBetweenFingers s; rafQueue := rafQueue s |}.

Definition setCurrDistance (d : R) (s : St) : St :=
  {| activePointers := activePointers s; pinchState := pinchState s;
     initDistanceBetweenFingers := initDistanceBetweenFingers s; initZoom := initZoom s;
     currDistanceBetweenFingers := d;
     initPointBetweenFingers := initPointBetweenFingers s;
     prevPointBetweenFingers := prevPointBetweenFingers s; rafQueue := rafQueue s |}.

Definition setPrevPoint (v : Vec) (s : St) : St :=
  {| activePointers := activePointers s; pinchState := pinchState s;
     initDistanceBetweenFingers := initDistanceBetweenFingers s; initZoom := initZoom s;
     currDistanceBetweenFingers := currDistanceBetweenFingers s;
     initPointBetweenFingers := initPointBetweenFingers s;
     prevPointBetweenFingers := v; rafQueue := rafQueue s |}.

Definition setRafQueue (q : list RafTask) (s : St) : St :=
  {| activePointers := activePointers s; pinchState := pinchState s;
     initDistanceBetweenFingers := initDistanceBetweenFingers s; initZoom := initZoom s;
     currDistanceBetweenFingers := currDistanceBetweenFingers s;
     initPointBetweenFingers := initPointBetweenFingers s;
     prevPointBetweenFingers := prevPointBetweenFingers s; rafQueue := q |}.

(** The session initialisation of [onPointerDown]. *)
Definition startSession (center : Vec) (dist zoom : R) (s : St) : St :=
  {| activePointers := activePointers s; pinchState := NotSure;
     initDistanceBetweenFingers := dist; initZoom := zoom;
     currDistanceBetweenFingers := currDistanceBetweenFingers s;
     initPointBetweenFingers := center;
     prevPointBetweenFingers := center; rafQueue := rafQueue s |}.

(** JavaScript's [b ** e] on the finite reals.  For [b > 0] it is
    [exp (e * ln b)]; [0 ** e] is [0] for [e > 0] and [1] for [e = 0].  The
    remaining cases ([0 ** e] with [e < 0] is [Infinity], a negative base
    gives [NaN] or a signed power) have no finite value; the model returns
    [0] there and no statement below depends on them. *)
Definition pow_js (b e : R) : R :=
  if Rlt_dec 0 b then Rpower b e
  else if Req_dec_T b 0 then (if Rlt_dec 0 e then 0 else if Req_dec_T e 0 then 1 else 0)
  else 0.

(** ** The hook *)

Section Hook.

(** [Vec.Dist] of the primitives module. *)
Variable Dist : Vec -> Vec -> R.
(** [normalizeWheel] of [utils/normalizeWheel]. *)
Variable normalizeWheel : WheelEvent -> Vec.
(** [isAccelKey] of [utils/keyboard] (platform dependent). *)
Variable isAccelKey : Mods -> bool.
(** Shapes, their util's [canScroll], page bounds and [containsPoint]. *)
Variable Shape Box : Type.
Variable canScroll : Shape -> bool.
Variable containsPoint : Box -> Vec -> bool.

(** The editor state the hook queries (read only), as seen by one event. *)
Record Editor := mkEditor {
  getZoomLevel : R;
  zoomSpeed : R;                        (* editor.getCameraOptions().zoomSpeed *)
  isFocused : bool;                     (* editor.getInstanceState().isFocused *)
  getEditingShapeId : option Z;
  getShape : Z -> option Shape;
  getShapePageBounds : Z -> option Box;
  currentPagePoint : Vec }.             (* editor.inputs.currentPagePoint *)

(** [shiftKey ... accelKey] of every info object built by the hook. *)
Definition keyInfo (m : Mods) : KeyInfo :=
  {| shiftKey := m_shift m;
     altKey := m_alt m;
     ctrlKey := m_meta m || m_ctrl m;
     metaKey := m_meta m;
     accelKey := isAccelKey m |}.

Definition getPointerDistance (p1 p2 : PointerEvent) : R :=
  let dx := clientX p1 - clientX p2 in
  let dy := clientY p1 - clientY p2 in
  sqrt (dx * dx + dy * dy).

Definition getPointerCenter (p1 p2 : PointerEvent) : Vec :=
  mkVec ((clientX p1 + clientX p2) / 2) ((clientY p1 + clientY p2) / 2).

Definition updatePinchState (s : St) : St :=
  match pinchState s with
  | Zooming => s
  | ps =>
    let touchDistance :=
      Rabs (currDistanceBetweenFingers s - initDistanceBetweenFingers s) in
    let originDistance := Dist (initPointBetweenFingers s) (prevPointBetweenFingers s) in
    match ps with
    | NotSure =>
      if Rlt_dec 24 touchDistance then setPinchState Zooming s
      else if Rlt_dec 16 originDistance then setPinchState Panning s
      else s
    | Panning =>
      if Rlt_dec 64 touchDistance then setPinchState Zooming s else s
    | Zooming => s
    end
  end.

Definition onPointerDown (ed : Editor) (e : PointerEvent) (s : St) : St * list Effect :=
  let s1 := setActivePointers (mapSet (pointerId e) e (activePointers s)) s in
  if Nat.eqb (mapSize (activePointers s1)) 2 then
    match activePointers s1 with
    | (_, p1) :: (_, p2) :: _ =>
      let center := getPointerCenter p1 p2 in
      let s2 := startSession center (getPointerDistance p1 p2) (getZoomLevel ed) s1 in
      (s2, [Dispatch (PinchInfo pinch_start center (getZoomLevel ed) (mkVec 0 0)
                                (keyInfo (pmods e)))])
    | _ => (s1, [])
    end
  else (s1, []).

Definition onPointerMove (ed : Editor) (e : PointerEvent) (s : St) : St * list Effect :=
  if negb (mapHas (pointerId e) (activePointers s)) then (s, []) else
  let s1 := setActivePointers (mapSet (pointerId e) e (activePointers s)) s in
  if Nat.eqb (mapSize (activePointers s1)) 2 then
    match activePointers s1 with
    | (_, p1) :: (_, p2) :: _ =>
      let center := getPointerCenter p1 p2 in
      let s2 := setCurrDistance (getPointerDistance p1 p2) s1 in
      let dx := vx center - vx (prevPointBetweenFingers s2) in
      let dy := vy center - vy (prevPointBetweenFingers s2) in
      let s3 := setPrevPoint center s2 in
      let s4 := updatePinchState s3 in
      match pinchState s4 with
      | Zooming =>
        let scale := currDistanceBetweenFingers s4 / initDistanceBetweenFingers s4 in
        let currZoom := initZoom s4 * pow_js scale (zoomSpeed ed) in
        (s4, [Dispatch (PinchInfo pinch center currZoom (mkVec dx dy) (keyInfo (pmods e)))])
      | Panning =>
        (s4, [Dispatch (PinchInfo pinch center (initZoom s4) (mkVec dx dy) (keyInfo (pmods e)))])
      | NotSure => (s4, [])
      end
    | _ => (s1, [])
    end
  else (s1, []).

(** Also the [pointercancel] listener. *)
Definition onPointerUp (ed : Editor) (e : PointerEvent) (s : St) : St * list Effect :=
  let s1 :=
    if Nat.eqb (mapSize (activePointers s)) 2 then
      let scale := currDistanceBetweenFingers s / initDistanceBetweenFingers s in
      let finalZoom := initZoom s * pow_js scale (zoomSpeed ed) in
      let s' := setPinchState NotSure s in
      setRafQueue (rafQueue s' ++ [PinchEndTask finalZoom (pmods e)]) s'
    else s in
  (setActivePointers (mapDelete (pointerId e) (activePointers s1)) s1, []).

(** The exemption test of [onWheel]: a scrollable editing shape whose page
    bounds contain the current page point. *)
Definition wheelExempt (ed : Editor) : bool :=
  match getEditingShapeId ed with
  | Some editingShapeId =>
    match getShape ed editingShapeId with
    | Some shape =>
      if canScroll shape then
        match getShapePageBounds ed editingShapeId with
        | Some bounds => containsPoint bounds (currentPagePoint ed)
        | None => false
        end
      else false
    | None => false
    end
  | None => false
  end.

Definition isZeroVec (v : Vec) : bool :=
  if Req_dec_T (vx v) 0 then (if Req_dec_T (vy v) 0 then true else false) else false.

Definition onWheel (ed : Editor) (e : WheelEvent) (s : St) : St * list Effect :=
  if negb (isFocused ed) then (s, []) else
  let s1 := setPinchState NotSure s in
  if wheelExempt ed then (s1, []) else
  let delta := normalizeWheel e in
  if isZeroVec delta then (s1, [PreventDefault; StopPropagation]) else
  (s1, [PreventDefault; StopPropagation;
        Dispatch (WheelInfo delta (mkVec (wclientX e) (wclientY e)) (keyInfo (wmods e)))]).

(** Running the pending animation-frame callbacks. *)
Definition runRafTask (s : St) (t : RafTask) : Effect :=
  match t with
  | PinchEndTask finalZoom m =>
    let p := prevPointBetweenFingers s in
    Dispatch (PinchInfo pinch_end (mkVec (vx p) (vy p)) finalZoom (mkVec (vx p) (vy p))
                        (keyInfo m))
  end.

Definition onAnimationFrame (s : St) : St * list Effect :=
  (setRafQueue [] s, map (runRafTask s) (rafQueue s)).

(** The events delivered to the container. *)
Inductive DomEvent :=
  | PointerDownEv (e : PointerEvent)
  | PointerMoveEv (e : PointerEvent)
  | PointerUpEv (e : PointerEvent)
  | PointerCancelEv (e : PointerEvent)
  | WheelEv (e : WheelEvent)
  | AnimationFrameEv.

Definition step (ed : Editor) (ev : DomEvent) (s : St) : St * list Effect :=
  match ev with
  | PointerDownEv e => onPointerDown ed e s
  | PointerMoveEv e => onPointerMove ed e s
  | PointerUpEv e | PointerCancelEv e => onPointerUp ed e s
  | WheelEv e => onWheel ed e s
  | AnimationFrameEv => onAnimationFrame s
  end.

(** A trace: each event together with the editor state it observes. *)
Fixpoint run (tr : list (Editor * DomEvent)) (s : St) : St * list Effect :=
  match tr with
  | [] => (s, [])
  | (ed, ev) :: tr' =>
    let (s1, eff1) := step ed ev s in
    let (s2, eff2) := run tr' s1 in
    (s2, eff1 ++ eff2)
  end.

(** ** Properties *)

(** *** The pointer map *)

Lemma mapSetAux_length k v m : length (mapSetAux k v m) = length m.
Proof. induction m as [|[k' v'] m IH]; simpl; [reflexivity|]. destruct (Z.eqb k k'); simpl; auto. Qed.

Lemma mapSet_size_present k v m : mapHas k m = true -> mapSize (mapSet k v m) = mapSize m.
Proof. intros H. unfold mapSet, mapSize. rewrite H. apply mapSetAux_length. Qed.

Lemma mapDelete_absent k m : mapHas k m = false -> mapDelete k m = m.
Proof.
  induction m as [|[k' v'] m IH]; simpl; intros H; [reflexivity|].
  apply orb_false_iff in H as [H1 H2]. rewrite H1. simpl. f_equal. auto.
Qed.

Lemma mapDelete_present_size k m : mapHas k m = true -> (mapSize (mapDelete k m) < mapSize m)%nat.
Proof.
  unfold mapSize, mapDelete.
  induction m as [|[k' v'] m IH]; simpl; intros H; [discriminate|].
  destruct (Z.eqb k k') eqn:E; simpl.
  - pose proof (filter_length_le (fun kv => negb (Z.eqb k (fst kv))) m). lia.
  - apply IH in H. lia.
Qed.

Lemma setPinchState_self s : setPinchState (pinchState s) s = s.
Proof. destruct s; reflexivity. Qed.

(** [updatePinchState] only writes [pinchState]. *)
Lemma updatePinchState_only_mode s : exists p, updatePinchState s = setPinchState p s.
Proof.
  unfold updatePinchState.
  destruct (pinchState s) eqn:E.
  - destruct (Rlt_dec 24 _); [eexists; reflexivity|].
    destruct (Rlt_dec 16 _); [eexists; reflexivity|].
    exists (pinchState s). symmetry. apply setPinchState_self.
  - exists (pinchState s). symmetry. apply setPinchState_self.
  - destruct (Rlt_dec 64 _); [eexists; reflexivity|].
    exists (pinchState s). symmetry. apply setPinchState_self.
Qed.

(** What a session update (a move of a tracked pointer while two pointers
    are active) reports, given its resulting state [s']. *)
Definition moveReport (ed : Editor) (e : PointerEvent) (s s' : St) : list Effect :=
  let c := prevPointBetweenFingers s' in
  let d := mkVec (vx c - vx (prevPointBetweenFingers s)) (vy c - vy (prevPointBetweenFingers s)) in
  match pinchState s' with
  | Zooming =>
    [Dispatch (PinchInfo pinch c
       (initZoom s' * pow_js (currDistanceBetweenFingers s' / initDistanceBetweenFingers s')
                             (zoomSpeed ed)) d (keyInfo (pmods e)))]
  | Panning => [Dispatch (PinchInfo pinch c (initZoom s') d (keyInfo (pmods e)))]
  | NotSure => []
  end.

Lemma onPointerMove_session ed e s :
  mapHas (pointerId e) (activePointers s) = true ->
  mapSize (activePointers s) = 2%nat ->
  exists k1 p1 k2 p2,
    mapSet (pointerId e) e (activePointers s) = [(k1, p1); (k2, p2)] /\
    onPointerMove ed e s =
      (let s4 := updatePinchState
                   (setPrevPoint (getPointerCenter p1 p2)
                      (setCurrDistance (getPointerDistance p1 p2)
                         (setActivePointers [(k1, p1); (k2, p2)] s))) in
       (s4, moveReport ed e s s4)).
Proof.
  intros Hhas Hsz.
  pose proof (mapSet_size_present (pointerId e) e _ Hhas) as Hsz'.
  rewrite Hsz in Hsz'.
  unfold onPointerMove. rewrite Hhas. simpl negb. cbv iota.
  destruct (mapSet (pointerId e) e (activePointers s)) as [|[k1 p1] [|[k2 p2] [|x l]]] eqn:E;
    try discriminate Hsz'.
  exists k1, p1, k2, p2. split; [reflexivity|]. simpl.
  destruct (updatePinchState_only_mode
              (setPrevPoint (getPointerCenter p1 p2)
                 (setCurrDistance (getPointerDistance p1 p2)
                    (setActivePointers [(k1, p1); (k2, p2)] s)))) as [p Hp].
  rewrite Hp. unfold moveReport. simpl. destruct p; reflexivity.
Qed.

(** *** C1 *)

(** Claim C1 (move part, as a helper): a move of an untracked pointer is a
    no-op. *)
Lemma onPointerMove_untracked ed e s :
  mapHas (pointerId e) (activePointers s) = false -> onPointerMove ed e s = (s, []).
Proof. intros H. unfold onPointerMove. rewrite H. reflexivity. Qed.

(** Claim C1: an up/cancel event for a pointer id that is not in the map,
    arriving while two pointers are tracked, still runs the pinch-end branch:
    it resets the mode to undecided and schedules a pinch-end, which the next
    animation frame dispatches.  The map itself is left unchanged. *)
Theorem C1_untracked_up_ends_pinch ed e s :
  mapSize (activePointers s) = 2%nat ->
  mapHas (pointerId e) (activePointers s) = false ->
  let (s', effs) := onPointerUp ed e s in
  effs = [] /\
  activePointers s' = activePointers s /\
  pinchState s' = NotSure /\
  rafQueue s' = rafQueue s ++
    [PinchEndTask (initZoom s * pow_js (currDistanceBetweenFingers s / initDistanceBetweenFingers s)
                                       (zoomSpeed ed)) (pmods e)] /\
  snd (onAnimationFrame s') =
    map (runRafTask s) (rafQueue s) ++
    [Dispatch (PinchInfo pinch_end (prevPointBetweenFingers s)
       (initZoom s * pow_js (currDistanceBetweenFingers s / initDistanceBetweenFingers s)
                            (zoomSpeed ed))
       (prevPointBetweenFingers s) (keyInfo (pmods e)))].
Proof.
  intros Hsz Hhas. unfold onPointerUp. rewrite Hsz. simpl.
  rewrite mapDelete_absent by exact Hhas.
  split; [reflexivity|]. split; [reflexivity|]. split; [reflexivity|]. split; [reflexivity|].
  unfold onAnimationFrame. simpl. rewrite map_app. simpl.
  destruct (prevPointBetweenFingers s). reflexivity.
Qed.

(** *** C2 *)

Ltac close_mode_cases :=
  repeat split; intros; simpl in *; first [reflexivity | discriminate | lra].

(** Claim C2: the classification step of a session update.  With
    [touchSpread = |currentDistance - initDistance|] and
    [originDrift = Dist initCentroid prevCentroid] (both after the update),
    undecided stays undecided below both thresholds, goes to zooming above
    24, to panning above 16 (spread at most 24); panning goes to zooming
    above 64 and stays panning otherwise. *)
Theorem C2_classification ed e s :
  mapHas (pointerId e) (activePointers s) = true ->
  mapSize (activePointers s) = 2%nat ->
  let s' := fst (onPointerMove ed e s) in
  let touchSpread :=
    Rabs (currDistanceBetweenFingers s' - initDistanceBetweenFingers s') in
  let originDrift := Dist (initPointBetweenFingers s') (prevPointBetweenFingers s') in
  (pinchState s = NotSure -> touchSpread <= 24 -> originDrift <= 16 -> pinchState s' = NotSure) /\
  (pinchState s = NotSure -> touchSpread > 24 -> pinchState s' = Zooming) /\
  (pinchState s = NotSure -> touchSpread <= 24 -> originDrift > 16 -> pinchState s' = Panning) /\
  (pinchState s = Panning -> touchSpread > 64 -> pinchState s' = Zooming) /\
  (pinchState s = Panning -> touchSpread <= 64 -> pinchState s' = Panning).
Proof.
  intros Hhas Hsz.
  destruct (onPointerMove_session ed e s Hhas Hsz) as (k1 & p1 & k2 & p2 & _ & Hm).
  rewrite Hm. cbv zeta. simpl fst.
  set (s3 := setPrevPoint _ _).
  destruct (updatePinchState_only_mode s3) as [p Hp]. rewrite Hp. simpl.
  assert (Hst : pinchState s3 = pinchState s) by reflexivity.
  unfold updatePinchState in Hp. rewrite Hst in Hp.
  assert (Hinj : forall a b, setPinchState a s3 = setPinchState b s3 -> a = b)
    by (intros a b Hab; apply (f_equal pinchState) in Hab; exact Hab).
  destruct (pinchState s) eqn:Es.
  - destruct (Rlt_dec 24 _) as [H24|H24];
      [apply Hinj in Hp; subst; close_mode_cases|].
    destruct (Rlt_dec 16 _) as [H16|H16].
    + apply Hinj in Hp. subst. close_mode_cases.
    + apply (f_equal pinchState) in Hp. simpl in Hp. rewrite ?Hst, ?Es in Hp. subst p.
      close_mode_cases.
  - repeat split; intros; discriminate.
  - destruct (Rlt_dec 64 _) as [H64|H64].
    + apply Hinj in Hp. subst. close_mode_cases.
    + apply (f_equal pinchState) in Hp. simpl in Hp. rewrite ?Hst, ?Es in Hp. subst p.
      close_mode_cases.
Qed.

(** Fields of the state after a session update. *)
Lemma onPointerMove_session_fields ed e s :
  mapHas (pointerId e) (activePointers s) = true ->
  mapSize (activePointers s) = 2%nat ->
  let (s', effs) := onPointerMove ed e s in
  initZoom s' = initZoom s /\
  initDistanceBetweenFingers s' = initDistanceBetweenFingers s /\
  initPointBetweenFingers s' = initPointBetweenFingers s /\
  rafQueue s' = rafQueue s /\
  effs = moveReport ed e s s'.
Proof.
  intros Hhas Hsz.
  destruct (onPointerMove_session ed e s Hhas Hsz) as (k1 & p1 & k2 & p2 & _ & Hm).
  rewrite Hm. cbv zeta.
  destruct (updatePinchState_only_mode
              (setPrevPoint (getPointerCenter p1 p2)
                 (setCurrDistance (getPointerDistance p1 p2)
                    (setActivePointers [(k1, p1); (k2, p2)] s)))) as [p Hp].
  rewrite Hp. repeat split.
Qed.

(** *** C3 *)

Lemma updatePinchState_zooming s : pinchState s = Zooming -> updatePinchState s = s.
Proof. intros Hz. unfold updatePinchState. rewrite Hz. reflexivity. Qed.

Lemma onPointerMove_zooming ed e s :
  pinchState s = Zooming ->
  let (s', effs) := onPointerMove ed e s in
  pinchState s' = Zooming /\
  Forall (fun eff => exists c d k,
            eff = Dispatch (PinchInfo pinch c
                    (initZoom s' * pow_js (currDistanceBetweenFingers s' /
                                           initDistanceBetweenFingers s') (zoomSpeed ed)) d k))
         effs.
Proof.
  intros Hz. unfold onPointerMove.
  destruct (mapHas (pointerId e) (activePointers s)); simpl negb; cbv iota;
    [|split; [exact Hz | constructor]].
  destruct (Nat.eqb _ 2); [|split; [exact Hz | constructor]].
  simpl activePointers.
  destruct (mapSet (pointerId e) e (activePointers s)) as [|[k1 p1] [|[k2 p2] l]];
    try (split; [exact Hz | constructor]).
  rewrite updatePinchState_zooming by exact Hz. simpl. rewrite Hz.
  split; [exact Hz|]. repeat constructor. eexists _, _, _. reflexivity.
Qed.

(** The events that keep a pinch session going with its two contacts:
    pointer moves, and animation frames. *)
Definition sessionEvent (ev : DomEvent) : bool :=
  match ev with
  | PointerMoveEv _ | AnimationFrameEv => true
  | _ => false
  end.

(** The fields an update of the mode leaves as they are. *)
Lemma updatePinchState_fields t :
  activePointers (updatePinchState t) = activePointers t /\
  currDistanceBetweenFingers (updatePinchState t) = currDistanceBetweenFingers t /\
  initDistanceBetweenFingers (updatePinchState t) = initDistanceBetweenFingers t /\
  initZoom (updatePinchState t) = initZoom t /\
  initPointBetweenFingers (updatePinchState t) = initPointBetweenFingers t /\
  prevPointBetweenFingers (updatePinchState t) = prevPointBetweenFingers t.
Proof. destruct (updatePinchState_only_mode t) as [p ->]. repeat split. Qed.

(** The spread and drift a session update reads. *)
Lemma onPointerMove_pair_fields ed e s :
  mapHas (pointerId e) (activePointers s) = true ->
  mapSize (activePointers s) = 2%nat ->
  exists k1 p1 k2 p2,
    mapSet (pointerId e) e (activePointers s) = [(k1, p1); (k2, p2)] /\
    let s' := fst (onPointerMove ed e s) in
    currDistanceBetweenFingers s' = getPointerDistance p1 p2 /\
    initDistanceBetweenFingers s' = initDistanceBetweenFingers s /\
    initPointBetweenFingers s' = initPointBetweenFingers s /\
    prevPointBetweenFingers s' = getPointerCenter p1 p2.
Proof.
  intros Hk Hsz.
  destruct (onPointerMove_session ed e s Hk Hsz) as (k1 & p1 & k2 & p2 & Hl & Hm).
  exists k1, p1, k2, p2. split; [exact Hl|]. rewrite Hm. cbv zeta. simpl fst.
  destruct (updatePinchState_fields
              (setPrevPoint (getPointerCenter p1 p2)
                 (setCurrDistance (getPointerDistance p1 p2)
                    (setActivePointers [(k1, p1); (k2, p2)] s))))
    as (_ & Hc & Hd & _ & Hi & Hp).
  rewrite Hc, Hd, Hi, Hp. repeat split.
Qed.

(** Claim C3 (fails): [onPointerUp] has no [has()] guard, so in a zooming
    session an up or cancel for a pointer id that is not tracked keeps the
    contact count at 2 but resets the mode to undecided.  The next move of a
    tracked contact is classified again from undecided: with a spread of at
    most 24 and a centroid drift above 16 the session is panning, and the
    update is reported as a pan with the frozen zoom [initZoom]. *)
Theorem C3_untracked_up_breaks_zooming ed ed' e e' s :
  mapSize (activePointers s) = 2%nat ->
  pinchState s = Zooming ->
  mapHas (pointerId e) (activePointers s) = false ->
  mapHas (pointerId e') (activePointers s) = true ->
  let s1 := fst (onPointerUp ed e s) in
  let (s2, effs) := onPointerMove ed' e' s1 in
  activePointers s1 = activePointers s /\
  pinchState s1 = NotSure /\
  mapSize (activePointers s2) = 2%nat /\
  (Rabs (currDistanceBetweenFingers s2 - initDistanceBetweenFingers s2) <= 24 ->
   Dist (initPointBetweenFingers s2) (prevPointBetweenFingers s2) > 16 ->
   pinchState s2 = Panning /\
   effs = [Dispatch (PinchInfo pinch (prevPointBetweenFingers s2) (initZoom s)
             (mkVec (vx (prevPointBetweenFingers s2) - vx (prevPointBetweenFingers s))
                    (vy (prevPointBetweenFingers s2) - vy (prevPointBetweenFingers s)))
             (keyInfo (pmods e')))]).
Proof.
  intros Hsz Hz Hk Hk'. cbv zeta.
  assert (Hs1 : fst (onPointerUp ed e s) =
    setActivePointers (activePointers s)
      (setRafQueue (rafQueue s ++
         [PinchEndTask (initZoom s * pow_js (currDistanceBetweenFingers s /
                          initDistanceBetweenFingers s) (zoomSpeed ed)) (pmods e)])
        (setPinchState NotSure s))).
  { unfold onPointerUp. rewrite Hsz. simpl. rewrite mapDelete_absent by exact Hk.
    reflexivity. }
  rewrite Hs1.
  set (s1 := setActivePointers _ _).
  assert (Ha1 : activePointers s1 = activePointers s) by reflexivity.
  rewrite <- Ha1 in Hsz, Hk'.
  destruct (onPointerMove_session ed' e' s1 Hk' Hsz) as (k1 & p1 & k2 & p2 & _ & Hm).
  rewrite Hm. cbv zeta.
  set (s3 := setPrevPoint _ _).
  destruct (updatePinchState_fields s3) as (Ha & Hc & Hd & Hiz & Hi & Hp').
  split; [reflexivity|]. split; [reflexivity|].
  split; [rewrite Ha; reflexivity|].
  rewrite Hc, Hd, Hi, Hp'. intros H24 H16.
  assert (Hst : pinchState (updatePinchState s3) = Panning).
  { unfold updatePinchState. simpl pinchState.
    destruct (Rlt_dec 24 _) as [H|_]; [simpl in H24, H; lra|].
    destruct (Rlt_dec 16 _) as [_|H]; [reflexivity|simpl in H16, H; lra]. }
  split; [exact Hst|].
  unfold moveReport. rewrite Hst, Hiz, Hp'. reflexivity.
Qed.

(** *** C4 *)

(** Claim C4: a session update that ends in [zooming] dispatches one pinch
    update whose zoom is [initZoom * (currentDistance / initDistance) ^
    zoomSpeed]; with [initZoom = 1], [initDistance = 100],
    [currentDistance = 150] and [zoomSpeed = 1] that zoom is [1.5]. *)
Theorem C4_zoom_formula ed e s :
  mapHas (pointerId e) (activePointers s) = true ->
  mapSize (activePointers s) = 2%nat ->
  let (s', effs) := onPointerMove ed e s in
  pinchState s' = Zooming ->
  let z := initZoom s * pow_js (currDistanceBetweenFingers s' / initDistanceBetweenFingers s)
                               (zoomSpeed ed) in
  effs = [Dispatch (PinchInfo pinch (prevPointBetweenFingers s') z
            (mkVec (vx (prevPointBetweenFingers s') - vx (prevPointBetweenFingers s))
                   (vy (prevPointBetweenFingers s') - vy (prevPointBetweenFingers s)))
            (keyInfo (pmods e)))] /\
  (initZoom s = 1 -> initDistanceBetweenFingers s = 100 ->
   currDistanceBetweenFingers s' = 150 -> zoomSpeed ed = 1 -> z = 3 / 2).
Proof.
  intros Hhas Hsz.
  pose proof (onPointerMove_session_fields ed e s Hhas Hsz) as H.
  destruct (onPointerMove ed e s) as [s' effs].
  destruct H as (Hiz & Hid & _ & _ & He). intros Hz. cbv zeta. split.
  - rewrite He. unfold moveReport. rewrite Hz, Hiz, Hid. reflexivity.
  - intros H1 H2 H3 H4. rewrite H1, H2, H3, H4.
    unfold pow_js. destruct (Rlt_dec 0 (150 / 100)) as [Hp|Hp]; [|exfalso; lra].
    rewrite Rpower_1 by exact Hp. lra.
Qed.

(** *** C6 *)

(** Claim C6: a session update that ends in [panning] dispatches one pinch
    update with the zoom frozen at [initZoom] and the delta
    [centroid - prevCentroid] (the centroid before the step); one that ends
    undecided dispatches nothing. *)
Theorem C6_pan_and_undecided ed e s :
  mapHas (pointerId e) (activePointers s) = true ->
  mapSize (activePointers s) = 2%nat ->
  let (s', effs) := onPointerMove ed e s in
  (pinchState s' = Panning ->
   effs = [Dispatch (PinchInfo pinch (prevPointBetweenFingers s') (initZoom s)
             (mkVec (vx (prevPointBetweenFingers s') - vx (prevPointBetweenFingers s))
                    (vy (prevPointBetweenFingers s') - vy (prevPointBetweenFingers s)))
             (keyInfo (pmods e)))]) /\
  (pinchState s' = NotSure -> effs = []).
Proof.
  intros Hhas Hsz.
  pose proof (onPointerMove_session_fields ed e s Hhas Hsz) as H.
  destruct (onPointerMove ed e s) as [s' effs].
  destruct H as (Hiz & _ & _ & _ & He).
  split; intros Hp; rewrite He; unfold moveReport; rewrite Hp; [rewrite Hiz|]; reflexivity.
Qed.

(** *** C5 *)

(** Claim C5: when one of the two tracked pointers is released, the
    listener dispatches nothing synchronously, resets the mode to undecided,
    leaves fewer than two pointers, and queues one pinch-end carrying
    [initZoom * (currentDistance / initDistance) ^ zoomSpeed] whatever the
    mode was; the next animation frame dispatches it (after the callbacks
    already pending) with the last centroid as point and as delta. *)
Theorem C5_deferred_pinch_end ed e s :
  mapSize (activePointers s) = 2%nat ->
  mapHas (pointerId e) (activePointers s) = true ->
  let finalZoom := initZoom s * pow_js (currDistanceBetweenFingers s /
                                        initDistanceBetweenFingers s) (zoomSpeed ed) in
  let (s1, effs) := onPointerUp ed e s in
  effs = [] /\
  pinchState s1 = NotSure /\
  (mapSize (activePointers s1) < 2)%nat /\
  rafQueue s1 = rafQueue s ++ [PinchEndTask finalZoom (pmods e)] /\
  snd (onAnimationFrame s1) =
    map (runRafTask s) (rafQueue s) ++
    [Dispatch (PinchInfo pinch_end (prevPointBetweenFingers s) finalZoom
                         (prevPointBetweenFingers s) (keyInfo (pmods e)))].
Proof.
  intros Hsz Hhas. cbv zeta. unfold onPointerUp. rewrite Hsz. simpl.
  split; [reflexivity|]. split; [reflexivity|]. split.
  - pose proof (mapDelete_present_size _ _ Hhas) as H. rewrite Hsz in H. exact H.
  - split; [reflexivity|].
    unfold onAnimationFrame. simpl. rewrite map_app. simpl.
    destruct (prevPointBetweenFingers s). reflexivity.
Qed.

(** *** C7 *)

(** Claim C7 (amended): a wheel event seen while the editor is focused sets
    the mode to undecided, changes no other field of the state (contacts,
    distances, zoom, centroids, pending callbacks) and dispatches no
    pinch-end; while the editor is not focused the event is ignored
    altogether. *)
Theorem C7_wheel_resets_mode_when_focused ed w s :
  (isFocused ed = true ->
   let (s', effs) := onWheel ed w s in
   s' = setPinchState NotSure s /\
   Forall (fun eff => forall p z d k, eff <> Dispatch (PinchInfo pinch_end p z d k)) effs) /\
  (isFocused ed = false -> onWheel ed w s = (s, [])).
Proof.
  split; intros Hf; unfold onWheel; rewrite Hf; simpl negb; cbv iota; [|reflexivity].
  destruct (wheelExempt ed); [split; [reflexivity | constructor]|].
  destruct (isZeroVec (normalizeWheel w)); (split; [reflexivity|]);
    repeat constructor; intros; discriminate.
Qed.

(** *** C8 *)

Lemma wheelExempt_spec ed :
  wheelExempt ed = true <->
  exists id shape bounds,
    getEditingShapeId ed = Some id /\ getShape ed id = Some shape /\
    canScroll shape = true /\ getShapePageBounds ed id = Some bounds /\
    containsPoint bounds (currentPagePoint ed) = true.
Proof.
  unfold wheelExempt. split.
  - destruct (getEditingShapeId ed) as [id|] eqn:H1; [|discriminate].
    destruct (getShape ed id) as [shape|] eqn:H2; [|discriminate].
    destruct (canScroll shape) eqn:Hc; [|discriminate].
    destruct (getShapePageBounds ed id) as [b|] eqn:H4; [|discriminate].
    intros H. exists id, shape, b. repeat split; auto.
  - intros (id & shape & b & H1 & H2 & H3 & H4 & H5).
    rewrite H1, H2, H3, H4. exact H5.
Qed.

Lemma isZeroVec_spec v : isZeroVec v = true <-> vx v = 0 /\ vy v = 0.
Proof.
  unfold isZeroVec.
  destruct (Req_dec_T (vx v) 0); destruct (Req_dec_T (vy v) 0); split; intros H;
    try discriminate; try tauto; reflexivity.
Qed.

(** Claim C8: for a wheel event while the editor is focused, a scrollable
    editing shape whose page bounds contain the current point exempts the
    event (no effect at all: no canonical event, default behaviour kept);
    otherwise default behaviour and propagation are suppressed and the
    canonical wheel event with the normalised delta is dispatched, unless
    that delta is exactly (0,0). *)
Theorem C8_wheel_exemption ed w s :
  isFocused ed = true ->
  let effs := snd (onWheel ed w s) in
  let delta := normalizeWheel w in
  let exempt :=
    exists id shape bounds,
      getEditingShapeId ed = Some id /\ getShape ed id = Some shape /\
      canScroll shape = true /\ getShapePageBounds ed id = Some bounds /\
      containsPoint bounds (currentPagePoint ed) = true in
  (exempt -> effs = []) /\
  (~ exempt -> vx delta = 0 /\ vy delta = 0 -> effs = [PreventDefault; StopPropagation]) /\
  (~ exempt -> ~ (vx delta = 0 /\ vy delta = 0) ->
   effs = [PreventDefault; StopPropagation;
           Dispatch (WheelInfo delta (mkVec (wclientX w) (wclientY w)) (keyInfo (wmods w)))]).
Proof.
  intros Hf. cbv zeta. unfold onWheel. rewrite Hf. simpl negb. cbv iota.
  split; [|split]; intros Hex.
  - apply wheelExempt_spec in Hex. rewrite Hex. reflexivity.
  - intros Hz. destruct (wheelExempt ed) eqn:He;
      [exfalso; apply Hex, wheelExempt_spec, He|].
    apply isZeroVec_spec in Hz. rewrite Hz. reflexivity.
  - intros Hz. destruct (wheelExempt ed) eqn:He;
      [exfalso; apply Hex, wheelExempt_spec, He|].
    destruct (isZeroVec (normalizeWheel w)) eqn:Hz';
      [exfalso; apply Hz, isZeroVec_spec, Hz'|reflexivity].
Qed.

(** *** C9 *)

(** Claim C9: a pointer-down for an id that is already tracked, while two
    pointers are tracked, does not merely overwrite that contact: the size
    test passes again, so the session is re-initialised (mode undecided,
    [initZoom] re-read) and a second pinch-start is dispatched. *)
Theorem C9_duplicate_down_restarts_session ed e s :
  mapSize (activePointers s) = 2%nat ->
  mapHas (pointerId e) (activePointers s) = true ->
  let (s', effs) := onPointerDown ed e s in
  pinchState s' = NotSure /\
  initZoom s' = getZoomLevel ed /\
  exists center,
    prevPointBetweenFingers s' = center /\
    effs = [Dispatch (PinchInfo pinch_start center (getZoomLevel ed) (mkVec 0 0)
                                (keyInfo (pmods e)))].
Proof.
  intros Hsz Hhas.
  pose proof (mapSet_size_present (pointerId e) e _ Hhas) as Hsz'. rewrite Hsz in Hsz'.
  unfold onPointerDown. simpl activePointers.
  destruct (mapSet (pointerId e) e (activePointers s)) as [|[k1 p1] [|[k2 p2] [|x l]]];
    try discriminate Hsz'.
  simpl. split; [reflexivity|]. split; [reflexivity|].
  eexists. split; reflexivity.
Qed.

(** *** C10 *)

Definition notMove (ev : DomEvent) : bool :=
  match ev with PointerMoveEv _ => false | _ => true end.

Lemma step_notMove_currDist ed ev s :
  notMove ev = true ->
  currDistanceBetweenFingers (fst (step ed ev s)) = currDistanceBetweenFingers s.
Proof.
  destruct ev as [e|e|e|e|e|]; simpl; intros H; try discriminate H.
  - unfold onPointerDown. simpl.
    destruct (Nat.eqb _ 2); [|reflexivity].
    destruct (mapSet (pointerId e) e (activePointers s)) as [|[k1 p1] [|[k2 p2] l]];
      reflexivity.
  - unfold onPointerUp. destruct (Nat.eqb _ 2); reflexivity.
  - unfold onPointerUp. destruct (Nat.eqb _ 2); reflexivity.
  - unfold onWheel. destruct (negb (isFocused ed)); [reflexivity|].
    destruct (wheelExempt ed); [reflexivity|].
    destruct (isZeroVec (normalizeWheel e)); reflexivity.
  - reflexivity.
Qed.

Lemma run_notMove_currDist tr s :
  forallb (fun ee => notMove (snd ee)) tr = true ->
  currDistanceBetweenFingers (fst (run tr s)) = currDistanceBetweenFingers s.
Proof.
  revert s. induction tr as [|[ed ev] tr IH]; intros s H; [reflexivity|].
  simpl in H. apply andb_true_iff in H as [Hev H].
  simpl. destruct (step ed ev s) as [s1 eff1] eqn:Hs.
  pose proof (step_notMove_currDist ed ev s Hev) as Hc. rewrite Hs in Hc. simpl in Hc.
  specialize (IH s1 H). destruct (run tr s1) as [s2 eff2]. simpl in *. lra.
Qed.

(** A trace whose pointer moves all arrive while the map does not hold two
    contacts (such moves do not reach the session update). *)
Fixpoint movesOutsidePair (tr : list (Editor * DomEvent)) (s : St) : bool :=
  match tr with
  | [] => true
  | (ed, ev) :: tr' =>
    match ev with
    | PointerMoveEv _ => negb (Nat.eqb (mapSize (activePointers s)) 2)
    | _ => true
    end && movesOutsidePair tr' (fst (step ed ev s))
  end.

Lemma onPointerMove_not_pair_currDist ed e s :
  mapSize (activePointers s) <> 2%nat ->
  currDistanceBetweenFingers (fst (onPointerMove ed e s)) = currDistanceBetweenFingers s.
Proof.
  intros Hsz. unfold onPointerMove.
  destruct (mapHas (pointerId e) (activePointers s)) eqn:Hk; [|reflexivity].
  simpl. rewrite (mapSet_size_present _ _ _ Hk).
  apply Nat.eqb_neq in Hsz. rewrite Hsz. reflexivity.
Qed.

Lemma run_movesOutsidePair_currDist tr s :
  movesOutsidePair tr s = true ->
  currDistanceBetweenFingers (fst (run tr s)) = currDistanceBetweenFingers s.
Proof.
  revert s. induction tr as [|[ed ev] tr IH]; intros s H; [reflexivity|].
  simpl in H. apply andb_true_iff in H as [Hev H].
  assert (Hc : currDistanceBetweenFingers (fst (step ed ev s)) = currDistanceBetweenFingers s).
  { destruct ev; try (apply step_notMove_currDist; reflexivity).
    apply negb_true_iff, Nat.eqb_neq in Hev. apply onPointerMove_not_pair_currDist, Hev. }
  simpl. destruct (step ed ev s) as [s1 eff1] eqn:Hs. simpl in Hc, H.
  specialize (IH s1 H). destruct (run tr s1) as [s2 eff2]. simpl in *. lra.
Qed.

(** Claim C10: session start does not write [currDistanceBetweenFingers].
    Take any history [pre] from the initial state, then a session [tr] (from
    the second contact's start on) without pointer moves: a release while
    two pointers are tracked queues a pinch-end whose zoom is computed from
    the distance left over from [pre].  When no move of [pre] arrived while
    two contacts were down (in particular when [tr] is the first session),
    that distance is still the initial [0], and the zoom is
    [initZoom * (0 / initDistance) ^ zoomSpeed], which is [0] when the
    initial distance and the exponent are positive. *)
Theorem C10_moveless_session_zero_zoom pre tr ed e :
  forallb (fun ee => notMove (snd ee)) tr = true ->
  let s0 := fst (run pre initSt) in
  let s := fst (run tr s0) in
  mapSize (activePointers s) = 2%nat ->
  let z := initZoom s * pow_js (currDistanceBetweenFingers s0 / initDistanceBetweenFingers s)
                               (zoomSpeed ed) in
  (forall ed' e' s', currDistanceBetweenFingers (fst (onPointerDown ed' e' s')) =
                     currDistanceBetweenFingers s') /\
  snd (onAnimationFrame (fst (onPointerUp ed e s))) =
    map (runRafTask s) (rafQueue s) ++
    [Dispatch (PinchInfo pinch_end (prevPointBetweenFingers s) z
                         (prevPointBetweenFingers s) (keyInfo (pmods e)))] /\
  (movesOutsidePair pre initSt = true ->
   currDistanceBetweenFingers s0 = 0 /\
   (0 < initDistanceBetweenFingers s -> 0 < zoomSpeed ed -> z = 0)).
Proof.
  intros Hnm. cbv zeta. intros Hsz.
  set (s0 := fst (run pre initSt)) in *.
  pose proof (run_notMove_currDist tr s0 Hnm) as Hc.
  split; [|split].
  - intros ed' e' s'. apply (step_notMove_currDist ed' (PointerDownEv e') s'). reflexivity.
  - unfold onPointerUp. rewrite Hsz. simpl. rewrite Hc.
    unfold onAnimationFrame. simpl. rewrite map_app. simpl.
    destruct (prevPointBetweenFingers (fst (run tr s0))). reflexivity.
  - intros Hpre. pose proof (run_movesOutsidePair_currDist pre initSt Hpre) as H0.
    fold s0 in H0. simpl in H0. split; [exact H0|].
    intros Hd He. rewrite H0. unfold pow_js.
    replace (0 / initDistanceBetweenFingers (fst (run tr s0))) with 0 by (field; lra).
    destruct (Rlt_dec 0 0) as [H1|_]; [lra|].
    destruct (Req_dec_T 0 0) as [_|H1]; [|lra].
    destruct (Rlt_dec 0 (zoomSpeed ed)) as [_|H1]; [|lra]. ring.
Qed.

(** ** Further properties of the hook *)

(** *** The contact map *)

Lemma mapHas_In k m : mapHas k m = true <-> In k (map fst m).
Proof.
  induction m as [|[k' v'] m IH]; simpl; [split; [discriminate|tauto]|].
  rewrite orb_true_iff, Z.eqb_eq, IH. split; intros [H|H]; auto.
Qed.

Lemma mapSetAux_keys k v m : map fst (mapSetAux k v m) = map fst m.
Proof.
  induction m as [|[k' v'] m IH]; simpl; [reflexivity|].
  destruct (Z.eqb k k'); simpl; rewrite ?IH; reflexivity.
Qed.

Lemma mapSet_keys_present k v m :
  mapHas k m = true -> map fst (mapSet k v m) = map fst m.
Proof. intros H. unfold mapSet. rewrite H. apply mapSetAux_keys. Qed.

Lemma NoDup_snoc (l : list Z) k : NoDup l -> ~ In k l -> NoDup (l ++ [k]).
Proof.
  induction 1 as [|a l Ha Hl IH]; simpl; intros Hk.
  - constructor; [tauto | constructor].
  - constructor.
    + rewrite in_app_iff. simpl. intros [H|[H|H]]; [tauto| |tauto]. subst. tauto.
    + apply IH. tauto.
Qed.

Lemma mapSet_NoDup k v m : NoDup (map fst m) -> NoDup (map fst (mapSet k v m)).
Proof.
  intros H. unfold mapSet. destruct (mapHas k m) eqn:Hk.
  - rewrite mapSetAux_keys. exact H.
  - rewrite map_app. simpl. apply NoDup_snoc; [exact H|].
    intros Hin. apply mapHas_In in Hin. congruence.
Qed.

Lemma mapDelete_keys_incl k m x : In x (map fst (mapDelete k m)) -> In x (map fst m).
Proof.
  unfold mapDelete. rewrite !in_map_iff. intros [kv [Hx Hin]].
  apply filter_In in Hin as [Hin _]. eauto.
Qed.

Lemma mapDelete_NoDup k m : NoDup (map fst m) -> NoDup (map fst (mapDelete k m)).
Proof.
  induction m as [|[k' v'] m IH]; simpl; intros H; [constructor|].
  inversion H as [|? ? Hn Hd]; subst.
  unfold mapDelete in *. simpl. destruct (negb (Z.eqb k k')); simpl; [|auto].
  constructor; [|auto]. intros Hin. apply Hn, (mapDelete_keys_incl k m). exact Hin.
Qed.

Lemma mapDelete_size_NoDup k m :
  NoDup (map fst m) -> mapHas k m = true -> mapSize (mapDelete k m) = pred (mapSize m).
Proof.
  unfold mapSize. induction m as [|[k' v'] m IH]; simpl; intros Hd Hk; [discriminate|].
  inversion Hd as [|? ? Hn Hd']; subst.
  unfold mapDelete in *. simpl.
  destruct (Z.eqb k k') eqn:E; simpl.
  - apply Z.eqb_eq in E. subst k'.
    assert (Hm : mapHas k m = false).
    { destruct (mapHas k m) eqn:Hm; [|reflexivity]. apply mapHas_In in Hm. tauto. }
    pose proof (mapDelete_absent k m Hm) as Ha. unfold mapDelete in Ha. rewrite Ha. reflexivity.
  - simpl in Hk. rewrite IH by assumption.
    destruct m as [|kv m]; [discriminate|]. reflexivity.
Qed.

Lemma mapSet_size_absent k v m : mapHas k m = false -> mapSize (mapSet k v m) = S (mapSize m).
Proof. intros H. unfold mapSet, mapSize. rewrite H, length_app. simpl. lia. Qed.

(** How each listener changes the contact map. *)
Lemma step_activePointers ed ev s :
  activePointers (fst (step ed ev s)) =
  match ev with
  | PointerDownEv e => mapSet (pointerId e) e (activePointers s)
  | PointerMoveEv e =>
    if mapHas (pointerId e) (activePointers s)
    then mapSet (pointerId e) e (activePointers s) else activePointers s
  | PointerUpEv e | PointerCancelEv e => mapDelete (pointerId e) (activePointers s)
  | WheelEv _ | AnimationFrameEv => activePointers s
  end.
Proof.
  destruct ev as [e|e|e|e|e|]; simpl.
  - unfold onPointerDown. simpl.
    destruct (Nat.eqb _ 2); [|reflexivity].
    destruct (mapSet (pointerId e) e (activePointers s)) as [|[k1 p1] [|[k2 p2] l]];
      reflexivity.
  - unfold onPointerMove. destruct (mapHas (pointerId e) (activePointers s)); [|reflexivity].
    simpl. destruct (Nat.eqb _ 2); [|reflexivity].
    destruct (mapSet (pointerId e) e (activePointers s)) as [|[k1 p1] [|[k2 p2] l]];
      try reflexivity.
    match goal with |- context [updatePinchState ?t] =>
      destruct (updatePinchState_only_mode t) as [p Hp]; rewrite Hp end.
    destruct p; reflexivity.
  - unfold onPointerUp. destruct (Nat.eqb _ 2); reflexivity.
  - unfold onPointerUp. destruct (Nat.eqb _ 2); reflexivity.
  - unfold onWheel. destruct (negb (isFocused ed)); [reflexivity|].
    destruct (wheelExempt ed); [reflexivity|].
    destruct (isZeroVec (normalizeWheel e)); reflexivity.
  - reflexivity.
Qed.

Lemma onPointerDown_activePointers ed e s :
  activePointers (fst (onPointerDown ed e s)) = mapSet (pointerId e) e (activePointers s).
Proof. exact (step_activePointers ed (PointerDownEv e) s). Qed.

Lemma onPointerMove_activePointers ed e s :
  activePointers (fst (onPointerMove ed e s)) =
  if mapHas (pointerId e) (activePointers s)
  then mapSet (pointerId e) e (activePointers s) else activePointers s.
Proof. exact (step_activePointers ed (PointerMoveEv e) s). Qed.

Lemma onPointerUp_activePointers ed e s :
  activePointers (fst (onPointerUp ed e s)) = mapDelete (pointerId e) (activePointers s).
Proof. exact (step_activePointers ed (PointerUpEv e) s). Qed.

Lemma run_keys_NoDup tr s :
  NoDup (map fst (activePointers s)) -> NoDup (map fst (activePointers (fst (run tr s)))).
Proof.
  revert s. induction tr as [|[ed ev] tr IH]; intros s H; [exact H|].
  simpl. destruct (step ed ev s) as [s1 eff1] eqn:Hs.
  assert (H1 : NoDup (map fst (activePointers s1))).
  { pose proof (step_activePointers ed ev s) as Ha. rewrite Hs in Ha. simpl in Ha. rewrite Ha.
    destruct ev as [e|e|e|e|e|].
    - apply mapSet_NoDup, H.
    - destruct (mapHas _ _); [apply mapSet_NoDup|]; exact H.
    - apply mapDelete_NoDup, H.
    - apply mapDelete_NoDup, H.
    - exact H.
    - exact H. }
  specialize (IH s1 H1). destruct (run tr s1) as [s2 eff2]. exact IH.
Qed.

(** Extra X2: in a reachable state, a pointer-down adds one contact exactly
    when its id is new (otherwise the count is unchanged), and an up or
    cancel removes one contact exactly when its id is tracked (otherwise
    the count is unchanged). *)
Theorem reachable_contact_count_steps tr ed e :
  let s := fst (run tr initSt) in
  mapSize (activePointers (fst (onPointerDown ed e s))) =
    (if mapHas (pointerId e) (activePointers s) then mapSize (activePointers s)
     else S (mapSize (activePointers s))) /\
  mapSize (activePointers (fst (onPointerUp ed e s))) =
    (if mapHas (pointerId e) (activePointers s) then pred (mapSize (activePointers s))
     else mapSize (activePointers s)).
Proof.
  cbv zeta. set (s := fst (run tr initSt)).
  assert (Hd : NoDup (map fst (activePointers s))) by (apply run_keys_NoDup; constructor).
  rewrite onPointerDown_activePointers, onPointerUp_activePointers.
  destruct (mapHas (pointerId e) (activePointers s)) eqn:Hk; split.
  - apply mapSet_size_present, Hk.
  - apply mapDelete_size_NoDup; assumption.
  - apply mapSet_size_absent, Hk.
  - rewrite mapDelete_absent by exact Hk. reflexivity.
Qed.

(** Extra X3: a pointer move never adds, removes or reorders contacts, so
    the pair [Array.from(activePointers.values())] reads keeps its order. *)
Theorem move_keeps_contact_order ed e s :
  map fst (activePointers (fst (onPointerMove ed e s))) = map fst (activePointers s).
Proof.
  rewrite onPointerMove_activePointers.
  destruct (mapHas (pointerId e) (activePointers s)) eqn:Hk; [|reflexivity].
  apply mapSet_keys_present, Hk.
Qed.

(** Extra X4: a tap of a new pointer (down, then up or cancel of the same
    id) while the number of contacts is not one leaves the whole hook state
    as it was and has no effect. *)
Theorem fresh_tap_roundtrip ed ed' e e' s :
  mapHas (pointerId e) (activePointers s) = false ->
  mapSize (activePointers s) <> 1%nat ->
  pointerId e' = pointerId e ->
  run [(ed, PointerDownEv e); (ed', PointerUpEv e')] s = (s, []).
Proof.
  intros Hk Hsz Hid. simpl.
  unfold onPointerDown. simpl.
  pose proof (mapSet_size_absent (pointerId e) e _ Hk) as Hs.
  destruct (Nat.eqb (mapSize (mapSet (pointerId e) e (activePointers s))) 2) eqn:E2.
  { apply Nat.eqb_eq in E2. lia. }
  unfold onPointerUp. simpl. rewrite E2. simpl. rewrite Hid.
  unfold mapSet. rewrite Hk. unfold mapDelete. rewrite filter_app. simpl.
  rewrite Z.eqb_refl. simpl. rewrite app_nil_r.
  pose proof (mapDelete_absent _ _ Hk) as Ha. unfold mapDelete in Ha. rewrite Ha.
  destruct s; reflexivity.
Qed.

(** *** Pinch-end and the animation frame *)

Definition isPinchEnd (eff : Effect) : bool :=
  match eff with Dispatch (PinchInfo pinch_end _ _ _ _) => true | _ => false end.

Ltac split_step H :=
  repeat (simpl in H;
    match type of H with
    | context [updatePinchState ?t] =>
      let p := fresh "p" in let Hp := fresh "Hp" in
      destruct (updatePinchState_only_mode t) as [p Hp]; rewrite Hp in H
    | context [match ?x with _ => _ end] => let E := fresh "E" in destruct x eqn:E
    end).

(** Extra X6: no listener other than the animation frame dispatches a
    pinch-end.  The queue of pending callbacks is left as it is, except by an
    up or cancel while two contacts are tracked, which appends exactly one
    callback. *)
Theorem only_frames_dispatch_pinch_end ed ev s :
  ev <> AnimationFrameEv ->
  forallb (fun eff => negb (isPinchEnd eff)) (snd (step ed ev s)) = true /\
  (rafQueue (fst (step ed ev s)) = rafQueue s \/
   (exists t, rafQueue (fst (step ed ev s)) = rafQueue s ++ [t]) /\
   mapSize (activePointers s) = 2%nat /\
   exists e, ev = PointerUpEv e \/ ev = PointerCancelEv e).
Proof.
  intros Hev. destruct (step ed ev s) as [s' effs] eqn:Hs. simpl fst; simpl snd.
  destruct ev as [e|e|e|e|e|]; [| | | | |congruence]; simpl in Hs;
    unfold onPointerDown, onPointerMove, onPointerUp, onWheel in Hs; split_step Hs;
    injection Hs as <- <-; simpl;
    try (destruct p; simpl); try (split; [reflexivity | left; reflexivity]).
  - split; [reflexivity|]. right. split; [eexists; reflexivity|].
    split; [apply Nat.eqb_eq; assumption|]. eauto.
  - split; [reflexivity|]. right. split; [eexists; reflexivity|].
    split; [apply Nat.eqb_eq; assumption|]. eauto.
Qed.

(** *** A committed session *)

Lemma updatePinchState_committed s :
  pinchState s <> NotSure -> pinchState (updatePinchState s) <> NotSure.
Proof.
  intros H. unfold updatePinchState.
  destruct (pinchState s) eqn:E; [congruence| |].
  - rewrite E. discriminate.
  - destruct (Rlt_dec 64 _); simpl; [discriminate|]. rewrite E. discriminate.
Qed.

Lemma onPointerMove_committed ed e s :
  pinchState s <> NotSure -> pinchState (fst (onPointerMove ed e s)) <> NotSure.
Proof.
  intros H. unfold onPointerMove.
  destruct (mapHas (pointerId e) (activePointers s)); [|exact H].
  simpl. destruct (Nat.eqb _ 2); [|exact H].
  destruct (mapSet (pointerId e) e (activePointers s)) as [|[k1 p1] [|[k2 p2] l]]; try exact H.
  match goal with |- context [updatePinchState ?t] =>
    pose proof (updatePinchState_committed t H) as Hc;
    destruct (pinchState (updatePinchState t)) eqn:Ep; simpl; rewrite Ep; exact Hc end.
Qed.

Lemma frame_fields s :
  pinchState (fst (onAnimationFrame s)) = pinchState s /\
  activePointers (fst (onAnimationFrame s)) = activePointers s /\
  prevPointBetweenFingers (fst (onAnimationFrame s)) = prevPointBetweenFingers s.
Proof. repeat split. Qed.

(** Extra X8: once a session is panning or zooming, pointer moves and
    animation frames never bring it back to undecided. *)
Theorem committed_session_never_undecided tr s :
  forallb (fun ee => sessionEvent (snd ee)) tr = true ->
  pinchState s <> NotSure ->
  pinchState (fst (run tr s)) <> NotSure.
Proof.
  revert s. induction tr as [|[ed ev] tr IH]; intros s Hall Hc; [exact Hc|].
  simpl in Hall. apply andb_true_iff in Hall as [Hev Hall].
  simpl. destruct (step ed ev s) as [s1 eff1] eqn:Hs.
  assert (Hc1 : pinchState s1 <> NotSure).
  { destruct ev; try discriminate Hev; simpl in Hs.
    - pose proof (onPointerMove_committed ed e s Hc) as H. rewrite Hs in H. exact H.
    - injection Hs as <- _. exact Hc. }
  specialize (IH s1 Hall Hc1). destruct (run tr s1) as [s2 eff2]. exact IH.
Qed.

Definition pinchDelta (eff : Effect) : Vec :=
  match eff with
  | Dispatch (PinchInfo pinch _ _ d _) => d
  | _ => mkVec 0 0
  end.

Definition sumDeltaX (effs : list Effect) : R :=
  fold_right (fun eff acc => vx (pinchDelta eff) + acc) 0 effs.

Definition sumDeltaY (effs : list Effect) : R :=
  fold_right (fun eff acc => vy (pinchDelta eff) + acc) 0 effs.

Lemma sumDelta_app l1 l2 :
  sumDeltaX (l1 ++ l2) = sumDeltaX l1 + sumDeltaX l2 /\
  sumDeltaY (l1 ++ l2) = sumDeltaY l1 + sumDeltaY l2.
Proof.
  induction l1 as [|eff l1 [IHx IHy]]; simpl; [split; ring|].
  rewrite IHx, IHy. split; ring.
Qed.

Lemma sumDelta_frame s :
  sumDeltaX (snd (onAnimationFrame s)) = 0 /\ sumDeltaY (snd (onAnimationFrame s)) = 0.
Proof.
  unfold onAnimationFrame. simpl.
  induction (rafQueue s) as [|[z m] q [IHx IHy]]; simpl; [split; reflexivity|].
  rewrite IHx, IHy. split; ring.
Qed.

Definition isPinchUpdate (eff : Effect) : bool :=
  match eff with Dispatch (PinchInfo pinch _ _ _ _) => true | _ => false end.

Definition countPinch (effs : list Effect) : nat := length (filter isPinchUpdate effs).

(** The moves of a trace whose pointer id the map [m] tracks. *)
Definition trackedMoves (m : PointerMap) (tr : list (Editor * DomEvent)) : nat :=
  length (filter (fun ee => match snd ee with
                            | PointerMoveEv e => mapHas (pointerId e) m
                            | _ => false
                            end) tr).

Lemma mapHas_keys k m1 m2 : map fst m1 = map fst m2 -> mapHas k m1 = mapHas k m2.
Proof.
  revert m2. induction m1 as [|[k1 v1] m1 IH]; intros [|[k2 v2] m2] H; try discriminate H;
    [reflexivity|].
  injection H as -> H. simpl. rewrite (IH m2 H). reflexivity.
Qed.

Lemma trackedMoves_keys m1 m2 tr :
  map fst m1 = map fst m2 -> trackedMoves m1 tr = trackedMoves m2 tr.
Proof.
  intros H. unfold trackedMoves. f_equal. apply filter_ext. intros [ed ev].
  destruct ev; try reflexivity. apply mapHas_keys, H.
Qed.

Lemma countPinch_frame s : countPinch (snd (onAnimationFrame s)) = 0%nat.
Proof.
  unfold countPinch, onAnimationFrame. simpl.
  induction (rafQueue s) as [|[z m] q IH]; simpl; [reflexivity|]. exact IH.
Qed.

Lemma committed_step_delta ed ev s :
  sessionEvent ev = true ->
  pinchState s <> NotSure ->
  mapSize (activePointers s) = 2%nat ->
  let (s1, effs) := step ed ev s in
  mapSize (activePointers s1) = 2%nat /\
  map fst (activePointers s1) = map fst (activePointers s) /\
  countPinch effs = trackedMoves (activePointers s) [(ed, ev)] /\
  sumDeltaX effs = vx (prevPointBetweenFingers s1) - vx (prevPointBetweenFingers s) /\
  sumDeltaY effs = vy (prevPointBetweenFingers s1) - vy (prevPointBetweenFingers s).
Proof.
  intros Hev Hc Hsz. destruct ev as [e|e|e|e|e|]; try discriminate Hev; simpl.
  - unfold trackedMoves. simpl.
    destruct (mapHas (pointerId e) (activePointers s)) eqn:Hk.
    + pose proof (onPointerMove_session_fields ed e s Hk Hsz) as Hf.
      pose proof (onPointerMove_committed ed e s Hc) as Hc'.
      pose proof (onPointerMove_activePointers ed e s) as Ha. rewrite Hk in Ha.
      destruct (onPointerMove ed e s) as [s' effs]. simpl in Hc', Ha.
      destruct Hf as (_ & _ & _ & _ & He). rewrite He. unfold moveReport.
      split; [rewrite Ha, mapSet_size_present; assumption|].
      split; [rewrite Ha; apply mapSet_keys_present, Hk|].
      destruct (pinchState s'); [congruence| |]; simpl; (split; [reflexivity|]); split; ring.
    + rewrite onPointerMove_untracked by exact Hk. simpl.
      split; [exact Hsz|]. split; [reflexivity|]. split; [reflexivity|]. split; ring.
  - pose proof (sumDelta_frame s) as [Hx Hy]. pose proof (countPinch_frame s) as Hn.
    unfold onAnimationFrame in *. simpl in *. split; [exact Hsz|]. split; [reflexivity|].
    split; [exact Hn|]. split; lra.
Qed.

(** Extra X9: in a session that is panning or zooming, every move of a
    tracked contact is reported, by exactly one pinch update, and nothing
    else is; so over any run of moves and animation frames the number of
    pinch updates is the number of tracked moves, and the reported pinch
    deltas add up to the total travel of the centroid. *)
Theorem committed_deltas_telescope tr s :
  forallb (fun ee => sessionEvent (snd ee)) tr = true ->
  pinchState s <> NotSure ->
  mapSize (activePointers s) = 2%nat ->
  countPinch (snd (run tr s)) = trackedMoves (activePointers s) tr /\
  sumDeltaX (snd (run tr s)) =
    vx (prevPointBetweenFingers (fst (run tr s))) - vx (prevPointBetweenFingers s) /\
  sumDeltaY (snd (run tr s)) =
    vy (prevPointBetweenFingers (fst (run tr s))) - vy (prevPointBetweenFingers s).
Proof.
  revert s. induction tr as [|[ed ev] tr IH]; intros s Hall Hc Hsz;
    [simpl; split; [reflexivity|]; split; ring|].
  simpl in Hall. apply andb_true_iff in Hall as [Hev Hall].
  pose proof (committed_step_delta ed ev s Hev Hc Hsz) as Hst.
  assert (Hc1 : pinchState (fst (step ed ev s)) <> NotSure).
  { destruct ev; try discriminate Hev; simpl.
    - apply onPointerMove_committed, Hc.
    - exact Hc. }
  assert (Htr : trackedMoves (activePointers s) ((ed, ev) :: tr) =
                (trackedMoves (activePointers s) [(ed, ev)] +
                 trackedMoves (activePointers s) tr)%nat).
  { unfold trackedMoves. simpl. destruct ev; try reflexivity.
    destruct (mapHas (pointerId e) (activePointers s)); reflexivity. }
  rewrite Htr.
  simpl. destruct (step ed ev s) as [s1 eff1] eqn:Hs. simpl in Hc1.
  destruct Hst as (Hsz1 & Hkeys & Hn1 & Hx1 & Hy1).
  specialize (IH s1 Hall Hc1 Hsz1).
  rewrite (trackedMoves_keys _ _ tr Hkeys) in IH.
  destruct (run tr s1) as [s2 eff2]. simpl in *.
  destruct (sumDelta_app eff1 eff2) as [Hax Hay]. rewrite Hax, Hay.
  destruct IH as (Hn2 & Hx2 & Hy2).
  split; [unfold countPinch in *; rewrite filter_app, length_app; lia|].
  rewrite Hx1, Hy1, Hx2, Hy2. split; ring.
Qed.

(** *** Geometry of the pair *)

(** Extra X10: the distance between two contacts is non-negative, does not
    depend on their order, and is zero exactly when they share a position
    (then the zoom formula divides by a zero [initDistance]); their midpoint
    does not depend on their order either. *)
Theorem pointer_distance_center_props p1 p2 :
  0 <= getPointerDistance p1 p2 /\
  getPointerDistance p1 p2 = getPointerDistance p2 p1 /\
  (getPointerDistance p1 p2 = 0 <-> clientX p1 = clientX p2 /\ clientY p1 = clientY p2) /\
  getPointerCenter p1 p2 = getPointerCenter p2 p1.
Proof.
  unfold getPointerDistance, getPointerCenter.
  split; [apply sqrt_pos|]. split.
  { f_equal. ring. }
  split.
  - split.
    + intros H.
      pose proof (Rle_0_sqr (clientX p1 - clientX p2)) as Sx.
      pose proof (Rle_0_sqr (clientY p1 - clientY p2)) as Sy. unfold Rsqr in Sx, Sy.
      apply sqrt_eq_0 in H; [|lra].
      assert (Hx : (clientX p1 - clientX p2) * (clientX p1 - clientX p2) = 0) by lra.
      assert (Hy : (clientY p1 - clientY p2) * (clientY p1 - clientY p2) = 0) by lra.
      apply Rmult_integral in Hx, Hy. split; lra.
    + intros [Hx Hy]. rewrite Hx, Hy.
      replace ((clientX p2 - clientX p2) * (clientX p2 - clientX p2) +
               (clientY p2 - clientY p2) * (clientY p2 - clientY p2)) with 0 by ring.
      apply sqrt_0.
  - f_equal; lra.
Qed.

(** *** Without a pair *)

Definition isPinchUpdateOrStart (eff : Effect) : bool :=
  match eff with
  | Dispatch (PinchInfo pinch _ _ _ _) | Dispatch (PinchInfo pinch_start _ _ _ _) => true
  | _ => false
  end.

(** Extra X11: the listeners leave everything but the contact map alone
    when no pair is involved: a down that does not make two contacts,
    and a move or an up while the map does not hold two contacts,
    dispatch nothing and change no field other than [activePointers]. *)
Theorem non_pair_steps_only_touch_contacts ed e s :
  (mapSize (mapSet (pointerId e) e (activePointers s)) <> 2%nat ->
   snd (onPointerDown ed e s) = [] /\
   setActivePointers (activePointers s) (fst (onPointerDown ed e s)) = s) /\
  (mapSize (activePointers s) <> 2%nat ->
   snd (onPointerMove ed e s) = [] /\
   setActivePointers (activePointers s) (fst (onPointerMove ed e s)) = s) /\
  (mapSize (activePointers s) <> 2%nat ->
   snd (onPointerUp ed e s) = [] /\
   setActivePointers (activePointers s) (fst (onPointerUp ed e s)) = s).
Proof.
  split; [|split]; intros Hsz.
  - unfold onPointerDown. simpl activePointers. apply Nat.eqb_neq in Hsz. rewrite Hsz.
    split; [reflexivity | destruct s; reflexivity].
  - unfold onPointerMove.
    destruct (mapHas (pointerId e) (activePointers s)) eqn:Hk;
      [|split; [reflexivity | destruct s; reflexivity]].
    simpl. rewrite (mapSet_size_present _ _ _ Hk).
    apply Nat.eqb_neq in Hsz. rewrite Hsz. split; [reflexivity | destruct s; reflexivity].
  - unfold onPointerUp. apply Nat.eqb_neq in Hsz. rewrite Hsz.
    split; [reflexivity | destruct s; reflexivity].
Qed.

Definition noContactChange (ev : DomEvent) : bool :=
  match ev with
  | PointerMoveEv _ | WheelEv _ | AnimationFrameEv => true
  | _ => false
  end.

Lemma step_noContactChange_size ed ev s :
  noContactChange ev = true ->
  mapSize (activePointers (fst (step ed ev s))) = mapSize (activePointers s).
Proof.
  intros H. rewrite step_activePointers.
  destruct ev; try discriminate H; try reflexivity.
  destruct (mapHas (pointerId e) (activePointers s)) eqn:Hk; [|reflexivity].
  apply mapSet_size_present, Hk.
Qed.

Lemma step_noContactChange_no_pinch ed ev s :
  noContactChange ev = true -> mapSize (activePointers s) <> 2%nat ->
  forallb (fun eff => negb (isPinchUpdateOrStart eff)) (snd (step ed ev s)) = true.
Proof.
  intros H Hsz. destruct ev as [e|e|e|e|e|]; try discriminate H; simpl.
  - unfold onPointerMove.
    destruct (mapHas (pointerId e) (activePointers s)) eqn:Hk; [|reflexivity].
    simpl. rewrite (mapSet_size_present _ _ _ Hk).
    apply Nat.eqb_neq in Hsz. rewrite Hsz. reflexivity.
  - unfold onWheel. destruct (negb (isFocused ed)); [reflexivity|].
    destruct (wheelExempt ed); [reflexivity|].
    destruct (isZeroVec (normalizeWheel e)); reflexivity.
  - unfold onAnimationFrame. simpl.
    induction (rafQueue s) as [|[z m] q IH]; simpl; [reflexivity|]. exact IH.
Qed.

(** Extra X12: starting with a contact map that does not hold exactly two
    contacts, no run of moves, wheel events and animation frames dispatches
    a pinch-start or a pinch update. *)
Theorem no_pinch_updates_without_pair tr s :
  forallb (fun ee => noContactChange (snd ee)) tr = true ->
  mapSize (activePointers s) <> 2%nat ->
  forallb (fun eff => negb (isPinchUpdateOrStart eff)) (snd (run tr s)) = true.
Proof.
  revert s. induction tr as [|[ed ev] tr IH]; intros s Hall Hsz; [reflexivity|].
  simpl in Hall. apply andb_true_iff in Hall as [Hev Hall].
  pose proof (step_noContactChange_size ed ev s Hev) as Hs1.
  pose proof (step_noContactChange_no_pinch ed ev s Hev Hsz) as Hp1.
  simpl. destruct (step ed ev s) as [s1 eff1]. simpl in Hs1, Hp1.
  rewrite <- Hs1 in Hsz. specialize (IH s1 Hall Hsz).
  destruct (run tr s1) as [s2 eff2]. simpl in *.
  rewrite forallb_app, Hp1, IH. reflexivity.
Qed.

End Hook.

(** ** Concrete inputs *)

Module Sample.

(** [Vec.Dist] as the Euclidean distance. *)
Definition dist (a b : Vec) : R :=
  sqrt ((vx a - vx b) * (vx a - vx b) + (vy a - vy b) * (vy a - vy b)).
Definition normalize (w : WheelEvent) : Vec := mkVec (wdeltaX w) (wdeltaY w).
Definition accel (m : Mods) : bool := m_ctrl m || m_meta m.
Definition canScroll0 (_ : unit) : bool := false.
Definition contains0 (_ : unit) (_ : Vec) : bool := false.

Definition ed0 : Editor unit unit :=
  {| getZoomLevel := 1; zoomSpeed := 1; isFocused := true;
     getEditingShapeId := None; getShape := fun _ => None;
     getShapePageBounds := fun _ => None; currentPagePoint := mkVec 0 0 |}.

Definition edUnfocused : Editor unit unit :=
  {| getZoomLevel := 1; zoomSpeed := 1; isFocused := false;
     getEditingShapeId := None; getShape := fun _ => None;
     getShapePageBounds := fun _ => None; currentPagePoint := mkVec 0 0 |}.

Definition noMods : Mods := mkMods false false false false.

Definition ptr (id : Z) (x y : R) : PointerEvent := mkPointerEvent id x y noMods.

Definition wheel0 : WheelEvent := mkWheelEvent 10 10 0 5 0 0 noMods.

(** Two tracked fingers at (0,0) and (3,4), session in the given mode. *)
Definition session (p : PinchState) : St :=
  {| activePointers := [(1%Z, ptr 1 0 0); (2%Z, ptr 2 3 4)];
     pinchState := p;
     initDistanceBetweenFingers := 5;
     initZoom := 1;
     currDistanceBetweenFingers := 5;
     initPointBetweenFingers := mkVec (3 / 2) 2;
     prevPointBetweenFingers := mkVec (3 / 2) 2;
     rafQueue := [] |}.

(** The listeners at these collaborators. *)
Definition downS := onPointerDown accel unit unit.
Definition moveS := onPointerMove dist accel unit unit.
Definition upS := onPointerUp unit unit.
Definition frameS := onAnimationFrame accel.
Definition wheelS := onWheel normalize accel unit unit canScroll0 contains0.
Definition runS := run dist normalize accel unit unit canScroll0 contains0.

End Sample.

Import Sample.

(** ** Witnesses and counterexamples *)

(** Claim C1: an up for pointer 3 during a two-finger zooming session. *)
Lemma C1_witness :
  mapSize (activePointers (session Zooming)) = 2%nat /\
  mapHas 3 (activePointers (session Zooming)) = false /\
  pinchState (fst (onPointerUp unit unit ed0 (ptr 3 0 0) (session Zooming))) = NotSure /\
  rafQueue (fst (onPointerUp unit unit ed0 (ptr 3 0 0) (session Zooming))) <> [].
Proof.
  pose proof (C1_untracked_up_ends_pinch accel unit unit ed0 (ptr 3 0 0) (session Zooming)
                eq_refl eq_refl) as H.
  destruct (onPointerUp unit unit ed0 (ptr 3 0 0) (session Zooming)) as [s' effs].
  destruct H as (_ & _ & Hp & Hq & _).
  split; [reflexivity|]. split; [reflexivity|]. split; [exact Hp|].
  simpl. rewrite Hq. simpl. discriminate.
Defined.

(** Claim C2: pointer 2 moves from (3,4) to (3,40) in an undecided session. *)
Lemma C2_witness :
  mapHas 2 (activePointers (session NotSure)) = true /\
  mapSize (activePointers (session NotSure)) = 2%nat /\
  (let s' := fst (moveS ed0 (ptr 2 3 40) (session NotSure)) in
   Rabs (currDistanceBetweenFingers s' - initDistanceBetweenFingers s') > 24 ->
   pinchState s' = Zooming).
Proof.
  split; [reflexivity|]. split; [reflexivity|].
  pose proof (C2_classification dist accel unit unit ed0 (ptr 2 3 40) (session NotSure)
                eq_refl eq_refl) as H.
  cbv zeta in *. destruct H as (_ & H & _). intros Hs. apply H; [reflexivity | exact Hs].
Defined.

(** Claim C3: in the zooming session, pointer 3 (never down) goes up, then
    finger 1 moves to (19.8, 26.4): spread |28 - 5| = 23, drift 16.5. *)
Lemma C3_witness :
  let s1 := fst (upS ed0 (ptr 3 0 0) (session Zooming)) in
  pinchState (session Zooming) = Zooming /\
  mapSize (activePointers s1) = 2%nat /\
  pinchState s1 = NotSure /\
  pinchState (fst (moveS ed0 (ptr 1 (99 / 5) (132 / 5)) s1)) = Panning.
Proof.
  pose proof (C3_untracked_up_breaks_zooming dist accel unit unit ed0 ed0 (ptr 3 0 0)
                (ptr 1 (99 / 5) (132 / 5)) (session Zooming) eq_refl eq_refl eq_refl eq_refl)
    as H.
  cbv zeta in *. unfold upS, moveS.
  set (s1 := fst (onPointerUp unit unit ed0 (ptr 3 0 0) (session Zooming))) in *.
  destruct (onPointerMove_pair_fields dist accel unit unit ed0 (ptr 1 (99 / 5) (132 / 5)) s1
              eq_refl eq_refl) as (k1 & p1 & k2 & p2 & Hl & Hc & Hd & Hi & Hp).
  simpl in Hl. injection Hl as <- <- <- <-.
  destruct (onPointerMove dist accel unit unit ed0 (ptr 1 (99 / 5) (132 / 5)) s1)
    as [s2 effs] eqn:Hm.
  simpl fst in Hc, Hd, Hi, Hp |- *.
  destruct H as (Ha & Hn & _ & H).
  split; [reflexivity|]. split; [rewrite Ha; reflexivity|]. split; [exact Hn|].
  rewrite Hc, Hd, Hi, Hp in H. apply H.
  - unfold getPointerDistance. simpl.
    replace ((99 / 5 - 3) * (99 / 5 - 3) + (132 / 5 - 4) * (132 / 5 - 4)) with (28 * 28)
      by field.
    rewrite sqrt_square by lra. rewrite Rabs_right by lra. lra.
  - unfold dist, getPointerCenter. simpl.
    replace ((3 / 2 - (99 / 5 + 3) / 2) * (3 / 2 - (99 / 5 + 3) / 2) +
             (2 - (132 / 5 + 4) / 2) * (2 - (132 / 5 + 4) / 2)) with (33 / 2 * (33 / 2))
      by field.
    rewrite sqrt_square by lra. lra.
Defined.

(** A zooming session started at distance 100 (fingers at (0,0) and (100,0)). *)
Definition session100 : St :=
  {| activePointers := [(1%Z, ptr 1 0 0); (2%Z, ptr 2 100 0)];
     pinchState := Zooming;
     initDistanceBetweenFingers := 100;
     initZoom := 1;
     currDistanceBetweenFingers := 100;
     initPointBetweenFingers := mkVec 50 0;
     prevPointBetweenFingers := mkVec 50 0;
     rafQueue := [] |}.

(** Claim C4: pointer 2 moves to (150,0); the reported zoom is 1.5. *)
Lemma C4_witness :
  mapHas 2 (activePointers session100) = true /\
  mapSize (activePointers session100) = 2%nat /\
  exists c d k, snd (moveS ed0 (ptr 2 150 0) session100) = [Dispatch (PinchInfo pinch c (3 / 2) d k)].
Proof.
  split; [reflexivity|]. split; [reflexivity|].
  pose proof (C4_zoom_formula dist accel unit unit ed0 (ptr 2 150 0) session100
                eq_refl eq_refl) as H.
  pose proof (onPointerMove_zooming dist accel unit unit ed0 (ptr 2 150 0) session100
                eq_refl) as Hz.
  unfold moveS.
  destruct (onPointerMove_session dist accel unit unit ed0 (ptr 2 150 0) session100
              eq_refl eq_refl) as (k1 & p1 & k2 & p2 & Hset & Hm).
  simpl in Hset. injection Hset as <- <- <- <-.
  rewrite Hm in H, Hz |- *. cbv zeta in H, Hz |- *.
  destruct Hz as [Hz _]. specialize (H Hz) as [He Hv].
  cbn [snd]. rewrite He. do 3 eexists. do 3 f_equal. apply Hv; try reflexivity.
  destruct (updatePinchState_only_mode dist
              (setPrevPoint (getPointerCenter (ptr 1 0 0) (ptr 2 150 0))
                 (setCurrDistance (getPointerDistance (ptr 1 0 0) (ptr 2 150 0))
                    (setActivePointers [(1%Z, ptr 1 0 0); (2%Z, ptr 2 150 0)] session100))))
    as [p Hp].
  rewrite Hp. simpl. unfold getPointerDistance. simpl.
  replace ((0 - 150) * (0 - 150) + (0 - 0) * (0 - 0)) with (150 * 150) by ring.
  apply sqrt_square. lra.
Defined.

(** Claim C5: finger 1 lifts during a panning session. *)
Lemma C5_witness :
  mapSize (activePointers (session Panning)) = 2%nat /\
  mapHas 1 (activePointers (session Panning)) = true /\
  snd (onPointerUp unit unit ed0 (ptr 1 0 0) (session Panning)) = [] /\
  pinchState (fst (onPointerUp unit unit ed0 (ptr 1 0 0) (session Panning))) = NotSure.
Proof.
  pose proof (C5_deferred_pinch_end accel unit unit ed0 (ptr 1 0 0) (session Panning)
                eq_refl eq_refl) as H.
  cbv zeta in H.
  destruct (onPointerUp unit unit ed0 (ptr 1 0 0) (session Panning)) as [s1 effs].
  destruct H as (He & Hp & _).
  split; [reflexivity|]. split; [reflexivity|]. split; [exact He | exact Hp].
Defined.

(** Claim C6: pointer 2 moves by a tiny amount in an undecided session. *)
Lemma C6_witness :
  mapHas 2 (activePointers (session NotSure)) = true /\
  mapSize (activePointers (session NotSure)) = 2%nat /\
  (pinchState (fst (moveS ed0 (ptr 2 3 4) (session NotSure))) = NotSure ->
   snd (moveS ed0 (ptr 2 3 4) (session NotSure)) = []).
Proof.
  split; [reflexivity|]. split; [reflexivity|].
  pose proof (C6_pan_and_undecided dist accel unit unit ed0 (ptr 2 3 4) (session NotSure)
                eq_refl eq_refl) as H.
  unfold moveS.
  destruct (onPointerMove dist accel unit unit ed0 (ptr 2 3 4) (session NotSure)) as [s' effs].
  exact (proj2 H).
Defined.

(** Claim C7: a focused wheel event during a panning session. *)
Lemma C7_witness :
  isFocused unit unit ed0 = true /\
  fst (wheelS ed0 wheel0 (session Panning)) = setPinchState NotSure (session Panning).
Proof.
  split; [reflexivity|].
  pose proof (proj1 (C7_wheel_resets_mode_when_focused normalize accel unit unit canScroll0
                       contains0 ed0 wheel0 (session Panning)) eq_refl) as H.
  unfold wheelS.
  destruct (onWheel normalize accel unit unit canScroll0 contains0 ed0 wheel0 (session Panning))
    as [s' effs].
  exact (proj1 H).
Defined.

(** Claim C7 as stated fails: while the editor is not focused, a wheel
    event leaves a panning session in [panning]. *)
Lemma C7_unfocused_wheel_keeps_panning :
  pinchState (fst (wheelS edUnfocused wheel0 (session Panning))) = Panning.
Proof. reflexivity. Qed.

(** Claim C8: a focused wheel event with no editing shape is dispatched. *)
Lemma C8_witness :
  isFocused unit unit ed0 = true /\
  snd (wheelS ed0 wheel0 (session NotSure)) =
    [PreventDefault; StopPropagation;
     Dispatch (WheelInfo (mkVec 0 5) (mkVec 10 10) (keyInfo accel noMods))].
Proof.
  split; [reflexivity|].
  pose proof (C8_wheel_exemption dist normalize accel unit unit canScroll0 contains0
                ed0 wheel0 (session NotSure) eq_refl) as H.
  cbv zeta in H. destruct H as (_ & _ & H).
  apply H.
  - intros (id & shape & b & H1 & _). discriminate H1.
  - simpl. lra.
Defined.

(** Claim C9: pointer 1 goes down again during a zooming session. *)
Lemma C9_witness :
  mapSize (activePointers (session Zooming)) = 2%nat /\
  mapHas 1 (activePointers (session Zooming)) = true /\
  pinchState (session Zooming) = Zooming /\
  pinchState (fst (downS ed0 (ptr 1 1 1) (session Zooming))) = NotSure.
Proof.
  split; [reflexivity|]. split; [reflexivity|]. split; [reflexivity|].
  pose proof (C9_duplicate_down_restarts_session accel unit unit ed0 (ptr 1 1 1)
                (session Zooming) eq_refl eq_refl) as H.
  unfold downS.
  destruct (onPointerDown accel unit unit ed0 (ptr 1 1 1) (session Zooming)) as [s' effs].
  exact (proj1 H).
Defined.

(** Claim C10: finger 1 goes down at (0,0) and moves to (1,1) alone; then
    finger 2 goes down at (3,4), with no move before the release. *)
Lemma C10_witness :
  let pre := [(ed0, PointerDownEv (ptr 1 0 0)); (ed0, PointerMoveEv (ptr 1 1 1))] in
  let tr := [(ed0, PointerDownEv (ptr 2 3 4))] in
  let s := fst (runS tr (fst (runS pre initSt))) in
  forallb (fun ee => notMove (snd ee)) tr = true /\
  movesOutsidePair dist normalize accel unit unit canScroll0 contains0 pre initSt = true /\
  mapSize (activePointers s) = 2%nat /\
  initZoom s * pow_js (currDistanceBetweenFingers (fst (runS pre initSt)) /
                       initDistanceBetweenFingers s) (zoomSpeed unit unit ed0) = 0.
Proof.
  cbv zeta. split; [reflexivity|]. split; [reflexivity|]. split; [reflexivity|].
  pose proof (C10_moveless_session_zero_zoom dist normalize accel unit unit canScroll0 contains0
                [(ed0, PointerDownEv (ptr 1 0 0)); (ed0, PointerMoveEv (ptr 1 1 1))]
                [(ed0, PointerDownEv (ptr 2 3 4))]
                ed0 (ptr 2 3 4) eq_refl eq_refl) as H.
  cbv zeta in H. destruct H as (_ & _ & H). apply (H eq_refl).
  - simpl. unfold getPointerDistance. simpl. apply sqrt_lt_R0. lra.
  - simpl. lra.
Defined.

(** ** Witnesses of the further properties *)

(** One finger down at (0,0). *)
Definition oneContact : St := setActivePointers [(1%Z, ptr 1 0 0)] initSt.

Definition sessionTrace : list (Editor unit unit * DomEvent) :=
  [(ed0, PointerMoveEv (ptr 2 3 40)); (ed0, AnimationFrameEv); (ed0, PointerMoveEv (ptr 1 1 1))].

(** Extra X4: a third finger taps during a zooming session. *)
Lemma fresh_tap_roundtrip_witness :
  mapHas 3 (activePointers (session Zooming)) = false /\
  mapSize (activePointers (session Zooming)) <> 1%nat /\
  runS [(ed0, PointerDownEv (ptr 3 0 0)); (ed0, PointerUpEv (ptr 3 5 5))] (session Zooming) =
    (session Zooming, []).
Proof.
  split; [reflexivity|]. split; [discriminate|].
  apply (fresh_tap_roundtrip dist normalize accel unit unit canScroll0 contains0 ed0 ed0
           (ptr 3 0 0) (ptr 3 5 5) (session Zooming)); [reflexivity | discriminate | reflexivity].
Defined.

(** Extra X6: finger 1 lifts during a zooming session. *)
Lemma only_frames_dispatch_pinch_end_witness :
  PointerUpEv (ptr 1 0 0) <> AnimationFrameEv /\
  forallb (fun eff => negb (isPinchEnd eff))
    (snd (step dist normalize accel unit unit canScroll0 contains0 ed0 (PointerUpEv (ptr 1 0 0))
            (session Zooming))) = true.
Proof.
  split; [discriminate|].
  exact (proj1 (only_frames_dispatch_pinch_end dist normalize accel unit unit canScroll0 contains0
                  ed0 (PointerUpEv (ptr 1 0 0)) (session Zooming) ltac:(discriminate))).
Defined.

(** Extra X8: moves and a frame in a panning session. *)
Lemma committed_session_never_undecided_witness :
  forallb (fun ee => sessionEvent (snd ee)) sessionTrace = true /\
  pinchState (session Panning) <> NotSure /\
  pinchState (fst (runS sessionTrace (session Panning))) <> NotSure.
Proof.
  split; [reflexivity|]. split; [discriminate|].
  apply (committed_session_never_undecided dist normalize accel unit unit canScroll0 contains0
           sessionTrace (session Panning)); [reflexivity | discriminate].
Defined.

(** Extra X9: the same run; the reported x deltas add up to the travel. *)
Lemma committed_deltas_telescope_witness :
  forallb (fun ee => sessionEvent (snd ee)) sessionTrace = true /\
  pinchState (session Panning) <> NotSure /\
  mapSize (activePointers (session Panning)) = 2%nat /\
  countPinch (snd (runS sessionTrace (session Panning))) = 2%nat /\
  sumDeltaX (snd (runS sessionTrace (session Panning))) =
    vx (prevPointBetweenFingers (fst (runS sessionTrace (session Panning)))) -
    vx (prevPointBetweenFingers (session Panning)).
Proof.
  split; [reflexivity|]. split; [discriminate|]. split; [reflexivity|].
  destruct (committed_deltas_telescope dist normalize accel unit unit canScroll0 contains0
              sessionTrace (session Panning) eq_refl ltac:(discriminate) eq_refl)
    as (Hn & Hx & _).
  split; [exact Hn | exact Hx].
Defined.

(** Extra X11: the single finger moves. *)
Lemma non_pair_steps_only_touch_contacts_witness :
  mapSize (activePointers oneContact) <> 2%nat /\
  snd (moveS ed0 (ptr 1 5 5) oneContact) = [].
Proof.
  split; [discriminate|].
  exact (proj1 (proj1 (proj2 (non_pair_steps_only_touch_contacts dist accel unit unit ed0
                                (ptr 1 5 5) oneContact)) ltac:(discriminate))).
Defined.

(** Extra X12: a move, a wheel event and a frame with one finger down. *)
Lemma no_pinch_updates_without_pair_witness :
  let tr := [(ed0, PointerMoveEv (ptr 1 5 5)); (ed0, WheelEv wheel0); (ed0, AnimationFrameEv)] in
  forallb (fun ee => noContactChange (snd ee)) tr = true /\
  mapSize (activePointers oneContact) <> 2%nat /\
  forallb (fun eff => negb (isPinchUpdateOrStart eff)) (snd (runS tr oneContact)) = true.
Proof.
  cbv zeta. split; [reflexivity|]. split; [discriminate|].
  apply (no_pinch_updates_without_pair dist normalize accel unit unit canScroll0 contains0);
    [reflexivity | discriminate].
Defined.
